(** * ui-image: a shallow embedding of the [UiImage] Stencil component

    Source: packages/components/src/components/ui-image/ui-image.tsx

    The component is a record of instance fields mutated by event handlers.
    Handlers are embedded as state-passing functions that also return the
    list of calls they make to the outside world (the injected write
    operation, the platform's FileReader).  The asynchronous handlers
    ([handleFileSelect], [handleSend]) are split at their suspension points,
    and a step function over browser events ties the pieces together. *)

From Stdlib Require Import ZArith Lia.
From stdpp Require Import base strings gmap list pretty.

Local Open Scope string_scope.
Local Open Scope Z_scope.

(** ** JavaScript values that occur in the component *)

(** [Date] objects are represented by their epoch time. *)
Inductive jsval :=
| VStr (s : string)
| VNum (n : Z)
| VDate (t : Z).

#[global] Instance jsval_eq_dec : EqDecision jsval.
Proof. solve_decision. Defined.

(** Truthiness of a [string | null] field, as used by [&&] and [?:]. *)
Definition truthy_str (o : option string) : bool :=
  match o with
  | Some s => negb (String.eqb s "")
  | None => false
  end.

(** A [File] handed over by the file picker. *)
Record File := mkFile { file_name : string; file_size : Z }.

(** A function object supplied by the caller.  The component never looks
    inside it; it only stores the reference and calls it. *)
Inductive fnref := FnRef (id : nat).

#[global] Instance fnref_eq_dec : EqDecision fnref.
Proof. solve_decision. Defined.

#[global] Instance File_eq_dec : EqDecision File.
Proof. solve_decision. Defined.

(** ** [formatFileSize] *)

Module Format.

(** [const k = 1024] *)
Definition k : Z := 1024.

(** [const sizes = ['B', 'KB', 'MB', 'GB', 'TB']] *)
Definition sizes : list string := ["B"; "KB"; "MB"; "GB"; "TB"].

(** [Math.floor(Math.log(bytes) / Math.log(k))] for an integer
    [bytes >= 1], taken at its real-number value: the largest [i] with
    [k^i <= bytes].  Since [k = 2^10] this is [floor(log2 bytes / 10)]. *)
Definition floor_log_k (bytes : Z) : Z := Z.log2 bytes / 10.

(** [x.toFixed(2)] for [x = bytes / Math.pow(k, i)], as the integer number
    of hundredths.  [bytes] is an integer below 2^53 and [k^i] a power of
    two, so the quotient is an exact double; [toFixed] then picks the
    integer [n] with [n / 100] closest to [x], the larger one on a tie. *)
Definition toFixed2 (bytes i : Z) : Z :=
  (200 * bytes + k ^ i) / (2 * k ^ i).

(** [parseFloat(s) + ''] for a [toFixed(2)] string holding [n] hundredths:
    the shortest decimal, i.e. trailing zeros of the fraction dropped. *)
Definition hundredths_to_string (n : Z) : string :=
  let q := n / 100 in
  let r := n mod 100 in
  if r =? 0 then pretty q
  else if r mod 10 =? 0 then pretty q +:+ "." +:+ pretty (r / 10)
  else pretty q +:+ "." +:+ pretty (r / 10) +:+ pretty (r mod 10).

(** [sizes[i]] converted to a string by [+]: an index outside the array
    reads [undefined]. *)
Definition sizes_at (i : Z) : string :=
  if i <? 0 then "undefined"
  else default "undefined" (sizes !! Z.to_nat i).

Definition formatFileSize (bytes : Z) : string :=
  if bytes =? 0 then "0 B"
  else
    let i := floor_log_k bytes in
    hundredths_to_string (toFixed2 bytes i) +:+ " " +:+ sizes_at i.

End Format.

(** ** Component state *)

Inductive StatusType := neutral | success | error.

#[global] Instance StatusType_eq_dec : EqDecision StatusType.
Proof. solve_decision. Defined.

(** The [options] bundle of [setValue]; every slot is optional. *)
Record Options := mkOptions {
  readOperation : option fnref;
  writeOperation : option fnref;
  observeOperation : option fnref
}.

(** Calls the component makes to its collaborators. *)
Inductive call :=
| CallWrite (fn : fnref) (file : File)
| CallRead (fn : fnref)
| CallObserve (fn : fnref)
| ReadAsDataURL (file : File).

#[global] Instance call_eq_dec : EqDecision call.
Proof. solve_decision. Defined.

(** The instance fields read or written by the handlers.  [metadata] is a
    JavaScript object, kept as a finite map from property names to values
    because [updateStatus] builds it by object spread and casts the result
    with [as any]; [None] is [null].  [fileInput_value] is [fileInput.value]
    of the hidden file input. *)
Record UiImage := mkUiImage {
  canRead : bool;
  canWrite : bool;
  canObserve : bool;
  isObserving : bool;
  selectedFile : option File;
  currentImageUrl : option string;
  metadata : option (gmap string jsval);
  loading : bool;
  statusText : string;
  statusType : StatusType;
  storedWriteOperation : option fnref;
  fileInput_value : string
}.

(** Field initialisers of the class, for given capability props. *)
Definition initial (r w o : bool) : UiImage :=
  {| canRead := r; canWrite := w; canObserve := o;
     isObserving := false; selectedFile := None; currentImageUrl := None;
     metadata := None; loading := false;
     statusText := "No data received yet"; statusType := neutral;
     storedWriteOperation := None; fileInput_value := "" |}.

(** Field assignments [this.f = v]. *)
Definition set_isObserving (v : bool) (s : UiImage) : UiImage :=
  mkUiImage (canRead s) (canWrite s) (canObserve s) v (selectedFile s)
    (currentImageUrl s) (metadata s) (loading s) (statusText s)
    (statusType s) (storedWriteOperation s) (fileInput_value s).

Definition set_selectedFile (v : option File) (s : UiImage) : UiImage :=
  mkUiImage (canRead s) (canWrite s) (canObserve s) (isObserving s) v
    (currentImageUrl s) (metadata s) (loading s) (statusText s)
    (statusType s) (storedWriteOperation s) (fileInput_value s).

Definition set_currentImageUrl (v : option string) (s : UiImage) : UiImage :=
  mkUiImage (canRead s) (canWrite s) (canObserve s) (isObserving s)
    (selectedFile s) v (metadata s) (loading s) (statusText s)
    (statusType s) (storedWriteOperation s) (fileInput_value s).

Definition set_metadata (v : option (gmap string jsval)) (s : UiImage)
  : UiImage :=
  mkUiImage (canRead s) (canWrite s) (canObserve s) (isObserving s)
    (selectedFile s) (currentImageUrl s) v (loading s) (statusText s)
    (statusType s) (storedWriteOperation s) (fileInput_value s).

Definition set_loading (v : bool) (s : UiImage) : UiImage :=
  mkUiImage (canRead s) (canWrite s) (canObserve s) (isObserving s)
    (selectedFile s) (currentImageUrl s) (metadata s) v (statusText s)
    (statusType s) (storedWriteOperation s) (fileInput_value s).

Definition set_status (msg : string) (type : StatusType) (s : UiImage)
  : UiImage :=
  mkUiImage (canRead s) (canWrite s) (canObserve s) (isObserving s)
    (selectedFile s) (currentImageUrl s) (metadata s) (loading s) msg
    type (storedWriteOperation s) (fileInput_value s).

Definition set_storedWriteOperation (v : option fnref) (s : UiImage)
  : UiImage :=
  mkUiImage (canRead s) (canWrite s) (canObserve s) (isObserving s)
    (selectedFile s) (currentImageUrl s) (metadata s) (loading s)
    (statusText s) (statusType s) v (fileInput_value s).

Definition set_fileInput_value (v : string) (s : UiImage) : UiImage :=
  mkUiImage (canRead s) (canWrite s) (canObserve s) (isObserving s)
    (selectedFile s) (currentImageUrl s) (metadata s) (loading s)
    (statusText s) (statusType s) (storedWriteOperation s) v.

(** ** Handlers *)

(** [setValue(_value, options)]: only the write slot is looked at, and only
    a present one is stored. *)
Definition setValue (_value : jsval) (options : option Options)
    (s : UiImage) : UiImage * list call :=
  match options with
  | Some o =>
      match writeOperation o with
      | Some w => (set_storedWriteOperation (Some w) s, [])
      | None => (s, [])
      end
  | None => (s, [])
  end.

(** [{ ...this.metadata, lastUpdated: new Date() }]: spreading [null] yields
    no properties. *)
Definition spread_lastUpdated (md : option (gmap string jsval)) (now : Z)
  : gmap string jsval :=
  <["lastUpdated" := VDate now]> (default ∅ md).

(** The guard of [updateStatus]:
    [type === 'success' || (this.currentImageUrl && type !== 'error')]. *)
Definition touches_timestamp (type : StatusType) (s : UiImage) : bool :=
  bool_decide (type = success)
  || (truthy_str (currentImageUrl s) && negb (bool_decide (type = error))).

(** [updateStatus(msg, type)]; [now] is the value of [new Date()]. *)
Definition updateStatus (msg : string) (type : StatusType) (now : Z)
    (s : UiImage) : UiImage :=
  let s := set_status msg type s in
  if touches_timestamp type s
  then set_metadata (Some (spread_lastUpdated (metadata s) now)) s
  else s.

(** [handleFileSelect(event)], up to [reader.readAsDataURL(file)].
    [files] is [input.files] ([null] read as the empty list). *)
Definition handleFileSelect (files : list File) (now : Z) (s : UiImage)
  : UiImage * list call :=
  match files !! 0%nat with
  | None => (s, [])
  | Some file =>
      let s := set_selectedFile (Some file) s in
      let s :=
        if isObserving s
        then updateStatus "Live stopped for selection" neutral now
               (set_isObserving false s)
        else s in
      (s, [ReadAsDataURL file])
  end.

(** The [reader.onload] callback; [result] is [e.target?.result]. *)
Definition reader_onload (result : option string) (now : Z) (s : UiImage)
  : UiImage :=
  let s := if truthy_str result then set_currentImageUrl result s else s in
  updateStatus "Displaying" neutral now s.

(** How the promise returned by the write operation ends; [Thrown] is a
    synchronous exception raised by the call itself. *)
Inductive settled := Fulfilled | Rejected | Thrown.

(** [handleSend], from entry to the [await]: the guard, the two
    assignments, and the call of the stored operation. *)
Definition handleSend_enter (now : Z) (s : UiImage) : UiImage * list call :=
  match selectedFile s, storedWriteOperation s with
  | Some file, Some op =>
      let s := set_loading true s in
      let s := updateStatus "Sending..." neutral now s in
      (s, [CallWrite op file])
  | _, _ => (s, [])
  end.

(** [handleSend], from the [await] to the end: the [try] continuation or the
    [catch] block, then [finally]. *)
Definition handleSend_resume (o : settled) (now : Z) (s : UiImage)
  : UiImage :=
  let s :=
    match o with
    | Fulfilled => updateStatus "Sent successfully" success now s
    | Rejected | Thrown => updateStatus "Failed to send" error now s
    end in
  set_loading false s.

(** [handleSend] run without any other handler in between. *)
Definition handleSend (o : settled) (now1 now2 : Z) (s : UiImage)
  : UiImage * list call :=
  match handleSend_enter now1 s with
  | (s1, []) => (s1, [])
  | (s1, calls) => (handleSend_resume o now2 s1, calls)
  end.

(** [onImageLoad(event)] for an [img] with the given natural size. *)
Definition onImageLoad (naturalWidth naturalHeight now : Z) (s : UiImage)
  : UiImage :=
  let size := from_option file_size 0 (selectedFile s) in
  let md : gmap string jsval :=
    <["format" := VStr "IMG"]>
      (<["width" := VNum naturalWidth]>
        (<["height" := VNum naturalHeight]>
          (<["size" := VNum size]>
            (<["lastUpdated" := VDate now]> ∅)))) in
  set_loading false (set_metadata (Some md) s).

(** The [onError] handler of the [img] element. *)
Definition onImageError (now : Z) (s : UiImage) : UiImage :=
  updateStatus "Failed to display image" error now s.

(** The [onClick] handler of the Cancel button. *)
Definition onCancelClick (s : UiImage) : UiImage :=
  set_fileInput_value "" (set_selectedFile None s).

(** [getSubtitle()] *)
Definition getSubtitle (s : UiImage) : string :=
  let parts : list string := [] in
  let parts := if canRead s then (parts ++ ["Read-only"])%list else parts in
  let parts := if canWrite s then (parts ++ ["Writable"])%list else parts in
  let parts := if canObserve s then (parts ++ ["Live"])%list else parts in
  let joined := String.concat " / " parts in
  if String.eqb joined "" then "Image" else joined.

(** [getPlaceholderText()] *)
Definition getPlaceholderText (s : UiImage) : string :=
  if canRead s then "Image Placeholder"
  else if canObserve s then "Waiting for connection..."
  else "No image available.".

(** ** Rendering *)

(** What the "Last update:" row shows:
    [this.metadata?.lastUpdated ? this.metadata.lastUpdated.toLocaleTimeString() : '—'].
    [NotADate] stands for the call of [toLocaleTimeString] on a truthy value
    that is not a [Date]. *)
Inductive last_update := LocaleTime (t : Z) | Dash | NotADate.

Definition render_lastUpdate (s : UiImage) : last_update :=
  match metadata s with
  | None => Dash
  | Some md =>
      match md !! "lastUpdated" with
      | None => Dash
      | Some (VDate t) => LocaleTime t
      | Some (VStr x) => if String.eqb x "" then Dash else NotADate
      | Some (VNum n) => if n =? 0 then Dash else NotADate
      end
  end.

(** The content area: the [img] element or the placeholder. *)
Inductive content := Img (src : string) | Placeholder (text : string).

Definition render_content (s : UiImage) : content :=
  match currentImageUrl s with
  | Some url => if truthy_str (Some url) then Img url
                else Placeholder (getPlaceholderText s)
  | None => Placeholder (getPlaceholderText s)
  end.

(** The hidden file input is rendered inside [this.canWrite && ...]. *)
Definition input_rendered (s : UiImage) : bool := canWrite s.

(** Send and Cancel are rendered inside
    [this.canWrite && ... this.selectedFile && ...]. *)
Definition file_actions_rendered (s : UiImage) : bool :=
  canWrite s && bool_decide (is_Some (selectedFile s)).

(** An object that has all five properties of [interface ImageMetadata]
    with values of the declared types. *)
Definition is_ImageMetadata (md : gmap string jsval) : bool :=
  match md !! "format", md !! "width", md !! "height", md !! "size",
        md !! "lastUpdated" with
  | Some (VStr _), Some (VNum _), Some (VNum _), Some (VNum _),
    Some (VDate _) => true
  | _, _, _, _, _ => false
  end.

(** The declared type of the field: [ImageMetadata | null]. *)
Definition metadata_well_typed (s : UiImage) : bool :=
  match metadata s with
  | None => true
  | Some md => is_ImageMetadata md
  end.

(** ** The component in its environment *)

(** Browser events and method calls that reach the component.  Each carries
    what the handler reads from its environment, [now] being the clock. *)
Inductive event :=
| SetValue (value : jsval) (options : option Options)
| InputChange (value : string) (files : list File) (now : Z)
| ReaderLoad (result : option string) (now : Z)
| ClickSend (now : Z)
| WriteSettled (o : settled) (now : Z)
| ClickCancel
| ImageLoad (naturalWidth naturalHeight now : Z)
| ImageError (now : Z).

(** The component together with the work it has started and not yet seen
    finish, and the history of its outgoing calls (oldest first). *)
Record World := mkWorld {
  comp : UiImage;
  pending_reads : nat;
  pending_sends : nat;
  calls : list call
}.

Definition boot (r w o : bool) : World :=
  mkWorld (initial r w o) 0 0 [].

(** One event.  [None] when the event cannot occur in this state: the
    element that raises it is not rendered, or nothing is pending. *)
Definition step (w : World) (e : event) : option World :=
  let s := comp w in
  match e with
  | SetValue v options =>
      let '(s', cs) := setValue v options s in
      Some (mkWorld s' (pending_reads w) (pending_sends w) (calls w ++ cs))
  | InputChange v files now =>
      if input_rendered s then
        let '(s', cs) := handleFileSelect files now (set_fileInput_value v s) in
        Some (mkWorld s' (pending_reads w + length cs) (pending_sends w)
                (calls w ++ cs))
      else None
  | ReaderLoad result now =>
      match pending_reads w with
      | O => None
      | S n =>
          Some (mkWorld (reader_onload result now s) n (pending_sends w)
                  (calls w))
      end
  | ClickSend now =>
      if file_actions_rendered s then
        let '(s', cs) := handleSend_enter now s in
        Some (mkWorld s' (pending_reads w) (pending_sends w + length cs)
                (calls w ++ cs))
      else None
  | WriteSettled o now =>
      match pending_sends w with
      | O => None
      | S n =>
          Some (mkWorld (handleSend_resume o now s) (pending_reads w) n
                  (calls w))
      end
  | ClickCancel =>
      if file_actions_rendered s then
        Some (mkWorld (onCancelClick s) (pending_reads w) (pending_sends w)
                (calls w))
      else None
  | ImageLoad nw nh now =>
      if truthy_str (currentImageUrl s) then
        Some (mkWorld (onImageLoad nw nh now s) (pending_reads w)
                (pending_sends w) (calls w))
      else None
  | ImageError now =>
      if truthy_str (currentImageUrl s) then
        Some (mkWorld (onImageError now s) (pending_reads w)
                (pending_sends w) (calls w))
      else None
  end.

Fixpoint run (w : World) (es : list event) : option World :=
  match es with
  | [] => Some w
  | e :: es' =>
      match step w e with
      | Some w' => run w' es'
      | None => None
      end
  end.

(** States the component can be in after some sequence of events. *)
Definition reachable (s : UiImage) : Prop :=
  ∃ r w o es w', run (boot r w o) es = Some w' ∧ comp w' = s.

(** ** Vocabulary of the specification *)

(** Reading a property through [this.metadata?.[key]]. *)
Definition metadata_get (md : option (gmap string jsval)) (key : string)
  : option jsval :=
  md ≫= (λ m, m !! key).

(** The subtitle as the specification words it: the labels of the flags
    that are set, in the order Read-only, Writable, Live, joined by " / ",
    and "Image" when no flag is set. *)
Definition subtitle_labels (r w o : bool) : list string :=
  (filter (λ p, fst p = true)
     [(r, "Read-only"); (w, "Writable"); (o, "Live")]).*2.

Definition subtitle_spec (r w o : bool) : string :=
  if negb r && negb w && negb o then "Image"
  else String.concat " / " (subtitle_labels r w o).

(** What every handler keeps true: no observation is ever running, and an
    image URL, once stored, is a non-empty string. *)
Definition steady (s : UiImage) : Prop :=
  isObserving s = false /\ currentImageUrl s ≠ Some "".

(** ** A sample session *)

Definition photo : File := mkFile "photo.png" 2048.
Definition upload : fnref := FnRef 1.
Definition upload_v2 : fnref := FnRef 2.

(** A writable card: the caller injects [upload], the user picks [photo]
    and presses Send, and the upload finishes before the FileReader does. *)
Definition send_before_decode : list event :=
  [ SetValue (VStr "") (Some (mkOptions None (Some upload) None));
    InputChange "C:\fakepath\photo.png" [photo] 10;
    ClickSend 20;
    WriteSettled Fulfilled 30 ].

(** The usual order: the FileReader finishes and the image is shown, but
    its [load] event has not fired yet. *)
Definition decode_before_load : list event :=
  [ InputChange "C:\fakepath\photo.png" [photo] 10;
    ReaderLoad (Some "data:image/png;base64,AAAA") 15 ].

(** The component with [photo] selected and [upload] stored. *)
Definition ready_to_send : UiImage :=
  set_storedWriteOperation (Some upload)
    (set_selectedFile (Some photo) (initial false true false)).

(** The component with [photo] selected and nothing injected. *)
Definition file_picked : UiImage :=
  set_selectedFile (Some photo) (initial false true false).

(** [ready_to_send] at the moment its write operation is running. *)
Definition sending : UiImage := (handleSend_enter 20 ready_to_send).1.

Definition with_upload : Options := mkOptions None (Some upload) None.
Definition with_upload_v2 : Options :=
  mkOptions (Some (FnRef 7)) (Some upload_v2) (Some (FnRef 8)).

(** The handler an event runs, as a function on the component alone. *)
Definition handle (e : event) (s : UiImage) : UiImage :=
  match e with
  | SetValue v options => (setValue v options s).1
  | InputChange v files now =>
      (handleFileSelect files now (set_fileInput_value v s)).1
  | ReaderLoad result now => reader_onload result now s
  | ClickSend now => (handleSend_enter now s).1
  | WriteSettled o now => handleSend_resume o now s
  | ClickCancel => onCancelClick s
  | ImageLoad nw nh now => onImageLoad nw nh now s
  | ImageError now => onImageError now s
  end.

(** ** Vocabulary for the invariants *)





(** The write operations handed over by [setValue] calls, and the files
    picked in the file input, in a sequence of events. *)
Definition supplied_op (e : event) : option fnref :=
  match e with
  | SetValue _ (Some o) => writeOperation o
  | _ => None
  end.

Definition picked_file (e : event) : option File :=
  match e with
  | InputChange _ files _ => files !! 0%nat
  | _ => None
  end.

Definition supplied_ops (es : list event) : list fnref := omap supplied_op es.
Definition picked_files (es : list event) : list File := omap picked_file es.

(** A call that uses only what the component was given. *)
Definition call_from (ops : list fnref) (files : list File) (c : call)
  : Prop :=
  match c with
  | CallWrite fn f => fn ∈ ops /\ f ∈ files
  | ReadAsDataURL f => f ∈ files
  | CallRead _ | CallObserve _ => False
  end.

(** Everything called so far, the stored operation and the selected file
    come from the given operations and files. *)
Definition provenance (ops : list fnref) (files : list File) (w : World)
  : Prop :=
  (∀ c, c ∈ calls w -> call_from ops files c)
  /\ (∀ fn, storedWriteOperation (comp w) = Some fn -> fn ∈ ops)
  /\ (∀ f, selectedFile (comp w) = Some f -> f ∈ files).

(** A second file and a session in which Send is pressed twice. *)
Definition scan : File := mkFile "scan.jpg" 0.

Definition send_twice : list event :=
  [ SetValue (VStr "") (Some with_upload);
    InputChange "C:\fakepath\photo.png" [photo; scan] 10;
    ClickSend 20;
    ClickSend 21;
    WriteSettled Rejected 30 ].

(** Send pressed once, the write not yet settled. *)
Definition send_started : list event :=
  [ SetValue (VStr "") (Some with_upload);
    InputChange "C:\fakepath\photo.png" [photo] 10;
    ClickSend 20 ].

(** The world of [send_started] as the second click arrives. *)
Definition one_in_flight : World :=
  mkWorld sending 1 1 [ReadAsDataURL photo; CallWrite upload photo].

(** What can reach a card that is not writable. *)
Definition read_only_session : list event :=
  [ SetValue (VNum 0) (Some with_upload_v2);
    SetValue (VNum 1) None ].

(** A session that ends with the image loaded. *)
Definition image_loaded : list event :=
  [ InputChange "C:\fakepath\photo.png" [photo] 10;
    ReaderLoad (Some "data:image/png;base64,AAAA") 15;
    ImageLoad 640 480 16 ].

(** * Properties *)

(** ** Byte-size formatting *)

Section FormatFacts.
Import Format.










Lemma formatFileSize_zero : formatFileSize 0 = "0 B".
Proof. reflexivity. Qed.

End FormatFacts.

Example format_1 : Format.formatFileSize 1 = "1 B".
Proof. vm_compute. reflexivity. Qed.
Example format_1023 : Format.formatFileSize 1023 = "1023 B".
Proof. vm_compute. reflexivity. Qed.
Example format_1152 : Format.formatFileSize 1152 = "1.13 KB".
Proof. vm_compute. reflexivity. Qed.
Example format_1536 : Format.formatFileSize 1536 = "1.5 KB".
Proof. vm_compute. reflexivity. Qed.
Example format_1075 : Format.formatFileSize 1075 = "1.05 KB".
Proof. vm_compute. reflexivity. Qed.
Example format_5MiB : Format.formatFileSize (5 * 1024 * 1024) = "5 MB".
Proof. vm_compute. reflexivity. Qed.
Example format_below_MiB : Format.formatFileSize (1024 * 1024 - 1) = "1024 KB".
Proof. vm_compute. reflexivity. Qed.
Example format_TiB : Format.formatFileSize (3 * 1024 ^ 4) = "3 TB".
Proof. vm_compute. reflexivity. Qed.

(** C1. The claim asks, for every byte count from 1 on, for a unit out of
    B, KB, MB, GB, TB.  At 2^52 bytes (4 PiB, an exact JavaScript number)
    the logarithm gives index 5, the five-entry table has no such entry,
    and the formatted text is "4 undefined". *)
Theorem formatFileSize_4PiB_undefined :
  Format.floor_log_k (2 ^ 52) = 5
  /\ Format.sizes !! 5%nat = None
  /\ Format.formatFileSize (2 ^ 52) = "4 undefined"
  /\ Format.sizes_at (Format.floor_log_k (2 ^ 52)) ∉ Format.sizes.
Proof.
  repeat split; try (vm_compute; reflexivity).
  change (Format.sizes_at (Format.floor_log_k (2 ^ 52))) with "undefined".
  unfold Format.sizes. rewrite !elem_of_cons, elem_of_nil.
  intros [H|[H|[H|[H|[H|[]]]]]]; discriminate.
Qed.

(** ** Status updates *)

Lemma truthy_str_Some (o : option string) :
  truthy_str o = true <-> ∃ url, o = Some url /\ url ≠ "".
Proof.
  destruct o as [u|]; simpl.
  - rewrite negb_true_iff. split.
    + intros H. exists u. split; [reflexivity|].
      intros ->. discriminate.
    + intros (u' & [= <-] & Hne). apply String.eqb_neq. exact Hne.
  - split; [discriminate|]. intros (? & [=] & _).
Qed.

Lemma touches_timestamp_iff (type : StatusType) (s : UiImage) :
  touches_timestamp type s = true <->
  type = success
  \/ (type ≠ error /\ ∃ url, currentImageUrl s = Some url /\ url ≠ "").
Proof.
  unfold touches_timestamp.
  rewrite orb_true_iff, andb_true_iff, negb_true_iff, bool_decide_eq_true,
    bool_decide_eq_false, truthy_str_Some.
  tauto.
Qed.

(** [updateStatus] assigns the two status fields and, at most, [metadata]. *)
Lemma updateStatus_frame (msg : string) (type : StatusType) (now : Z)
    (s : UiImage) :
  updateStatus msg type now s =
    set_metadata (metadata (updateStatus msg type now s))
      (set_status msg type s).
Proof.
  unfold updateStatus. destruct (touches_timestamp _ _); destruct s; reflexivity.
Qed.

Lemma updateStatus_metadata (msg : string) (type : StatusType) (now : Z)
    (s : UiImage) :
  metadata (updateStatus msg type now s) =
    if touches_timestamp type s
    then Some (spread_lastUpdated (metadata s) now)
    else metadata s.
Proof.
  unfold updateStatus.
  replace (touches_timestamp type (set_status msg type s))
    with (touches_timestamp type s) by (destruct s; reflexivity).
  destruct (touches_timestamp type s); destruct s; reflexivity.
Qed.

Lemma spread_lastUpdated_other (md : option (gmap string jsval)) (now : Z)
    (key : string) :
  key ≠ "lastUpdated" ->
  spread_lastUpdated md now !! key = metadata_get md key.
Proof.
  intros Hne. unfold spread_lastUpdated.
  rewrite lookup_insert_ne by congruence.
  destruct md as [m|]; simpl; [reflexivity|apply lookup_empty].
Qed.

(** C3. [updateStatus msg type] overwrites the status pair; it sets
    [metadata.lastUpdated] to the current time exactly when [type] is
    success, or [type] is not error and an image URL is present, and leaves
    [metadata] alone otherwise; every other metadata property, and every
    other field of the component, keeps its value. *)
Theorem updateStatus_overwrites_and_touches (msg : string)
    (type : StatusType) (now : Z) (s : UiImage) :
  statusText (updateStatus msg type now s) = msg
  /\ statusType (updateStatus msg type now s) = type
  /\ ((type = success
       \/ (type ≠ error /\ ∃ url, currentImageUrl s = Some url /\ url ≠ ""))
      -> metadata (updateStatus msg type now s)
           = Some (<["lastUpdated" := VDate now]> (default ∅ (metadata s)))
         /\ metadata_get (metadata (updateStatus msg type now s))
              "lastUpdated" = Some (VDate now))
  /\ (¬ (type = success
         \/ (type ≠ error /\ ∃ url, currentImageUrl s = Some url /\ url ≠ ""))
      -> metadata (updateStatus msg type now s) = metadata s)
  /\ (∀ key, key ≠ "lastUpdated" ->
        metadata_get (metadata (updateStatus msg type now s)) key
          = metadata_get (metadata s) key)
  /\ updateStatus msg type now s
       = set_metadata (metadata (updateStatus msg type now s))
           (set_status msg type s).
Proof.
  pose proof (touches_timestamp_iff type s) as Hiff.
  pose proof (updateStatus_metadata msg type now s) as Hmd.
  split; [|split; [|split; [|split; [|split]]]].
  - unfold updateStatus. destruct (touches_timestamp _ _); reflexivity.
  - unfold updateStatus. destruct (touches_timestamp _ _); reflexivity.
  - intros H. apply Hiff in H. rewrite H in Hmd. rewrite Hmd. split.
    + reflexivity.
    + simpl. apply lookup_insert_eq.
  - intros Hn. destruct (touches_timestamp type s); [|exact Hmd].
    exfalso. apply Hn, Hiff. reflexivity.
  - intros key Hkey. rewrite Hmd.
    destruct (touches_timestamp type s); [|reflexivity].
    simpl. apply spread_lastUpdated_other. exact Hkey.
  - apply updateStatus_frame.
Qed.

Lemma updateStatus_status (msg : string) (type : StatusType) (now : Z)
    (s : UiImage) :
  statusText (updateStatus msg type now s) = msg
  /\ statusType (updateStatus msg type now s) = type.
Proof.
  unfold updateStatus. destruct (touches_timestamp _ _); split; reflexivity.
Qed.

Lemma updateStatus_loading (msg : string) (type : StatusType) (now : Z)
    (s : UiImage) :
  loading (updateStatus msg type now s) = loading s.
Proof. rewrite updateStatus_frame. reflexivity. Qed.

Lemma updateStatus_error_metadata (msg : string) (now : Z) (s : UiImage) :
  metadata (updateStatus msg error now s) = metadata s.
Proof.
  rewrite updateStatus_metadata. unfold touches_timestamp. simpl.
  rewrite andb_false_r. reflexivity.
Qed.

(** C7. The image's error handler sets the status to error "Failed to
    display image" and does not assign [loading]: a spinner that was on
    stays on. *)
Theorem onImageError_keeps_loading (now : Z) (s : UiImage) :
  statusText (onImageError now s) = "Failed to display image"
  /\ statusType (onImageError now s) = error
  /\ loading (onImageError now s) = loading s
  /\ (loading s = true -> loading (onImageError now s) = true)
  /\ metadata (onImageError now s) = metadata s.
Proof.
  unfold onImageError.
  destruct (updateStatus_status "Failed to display image" error now s)
    as [Ht Hy].
  pose proof (updateStatus_loading "Failed to display image" error now s)
    as Hl.
  repeat split; try assumption.
  - intros Hon. congruence.
  - apply updateStatus_error_metadata.
Qed.

(** ** The send action *)

Lemma handleSend_enter_ready (now : Z) (s : UiImage) (file : File)
    (op : fnref) :
  selectedFile s = Some file ->
  storedWriteOperation s = Some op ->
  handleSend_enter now s =
    (updateStatus "Sending..." neutral now (set_loading true s),
     [CallWrite op file]).
Proof. intros Hf Ho. unfold handleSend_enter. rewrite Hf, Ho. reflexivity. Qed.

Lemma handleSend_resume_loading (o : settled) (now : Z) (s : UiImage) :
  loading (handleSend_resume o now s) = false.
Proof. reflexivity. Qed.

Lemma handleSend_resume_status (o : settled) (now : Z) (s : UiImage) :
  (statusText (handleSend_resume o now s),
   statusType (handleSend_resume o now s)) =
    match o with
    | Fulfilled => ("Sent successfully", success)
    | Rejected | Thrown => ("Failed to send", error)
    end.
Proof.
  unfold handleSend_resume.
  destruct o; unfold updateStatus;
    destruct (touches_timestamp _ _); reflexivity.
Qed.

(** C2. With a file selected and a write operation stored, [handleSend]
    turns the loading flag on and sets the status to neutral "Sending...",
    and in that state calls the stored operation with the selected file.
    When that call is fulfilled the status becomes success "Sent
    successfully"; when it is rejected or throws the status becomes error
    "Failed to send"; whichever happens, and whatever state the component
    is in when it happens, the loading flag is off at the end. *)
Theorem handleSend_lifecycle (s : UiImage) (file : File) (op : fnref)
    (now1 : Z) :
  selectedFile s = Some file ->
  storedWriteOperation s = Some op ->
  loading (handleSend_enter now1 s).1 = true
  /\ statusText (handleSend_enter now1 s).1 = "Sending..."
  /\ statusType (handleSend_enter now1 s).1 = neutral
  /\ (handleSend_enter now1 s).2 = [CallWrite op file]
  /\ (∀ now2 s',
        statusText (handleSend_resume Fulfilled now2 s') = "Sent successfully"
        /\ statusType (handleSend_resume Fulfilled now2 s') = success
        /\ loading (handleSend_resume Fulfilled now2 s') = false)
  /\ (∀ now2 s' o, o = Rejected \/ o = Thrown ->
        statusText (handleSend_resume o now2 s') = "Failed to send"
        /\ statusType (handleSend_resume o now2 s') = error
        /\ loading (handleSend_resume o now2 s') = false)
  /\ (∀ o now2,
        handleSend o now1 now2 s =
          (handleSend_resume o now2 (handleSend_enter now1 s).1,
           [CallWrite op file])
        /\ loading (handleSend o now1 now2 s).1 = false).
Proof.
  intros Hf Ho. rewrite (handleSend_enter_ready now1 s file op Hf Ho).
  cbn [fst snd].
  destruct (updateStatus_status "Sending..." neutral now1
              (set_loading true s)) as [Ht Hy].
  split; [rewrite updateStatus_loading; reflexivity|].
  split; [exact Ht|]. split; [exact Hy|]. split; [reflexivity|].
  split; [|split].
  - intros now2 s'.
    pose proof (handleSend_resume_status Fulfilled now2 s') as H.
    apply pair_equal_spec in H as [H1 H2]. repeat split; assumption.
  - intros now2 s' o Hrej.
    pose proof (handleSend_resume_status o now2 s') as H.
    destruct Hrej as [-> | ->]; apply pair_equal_spec in H as [H1 H2];
      repeat split; assumption.
  - intros o now2. unfold handleSend.
    rewrite (handleSend_enter_ready now1 s file op Hf Ho).
    split; reflexivity.
Qed.

(** C4. Without a selected file, or without a stored write operation, the
    send action returns at once: the component is left exactly as it was
    (status, metadata, file, image URL and loading flag included) and
    nothing is called. *)
Theorem handleSend_silent_noop (s : UiImage) (now : Z) :
  selectedFile s = None \/ storedWriteOperation s = None ->
  handleSend_enter now s = (s, [])
  /\ (∀ o now2, handleSend o now now2 s = (s, []))
  /\ statusText (handleSend_enter now s).1 = statusText s
  /\ statusType (handleSend_enter now s).1 = statusType s
  /\ metadata (handleSend_enter now s).1 = metadata s
  /\ selectedFile (handleSend_enter now s).1 = selectedFile s
  /\ currentImageUrl (handleSend_enter now s).1 = currentImageUrl s
  /\ loading (handleSend_enter now s).1 = loading s.
Proof.
  intros Hno.
  assert (He : handleSend_enter now s = (s, [])).
  { unfold handleSend_enter.
    destruct Hno as [-> | ->]; [reflexivity|].
    destruct (selectedFile s); reflexivity. }
  split; [exact He|]. split.
  - intros o now2. unfold handleSend. rewrite He. reflexivity.
  - rewrite He. repeat split.
Qed.

(** ** Configuration intake *)

Lemma setValue_calls_nothing (v : jsval) (options : option Options)
    (s : UiImage) :
  (setValue v options s).2 = [].
Proof.
  unfold setValue. destruct options as [o|]; [|reflexivity].
  destruct (writeOperation o); reflexivity.
Qed.

Lemma setValue_stored (v : jsval) (options : option Options) (s : UiImage) :
  storedWriteOperation (setValue v options s).1 =
    match options ≫= writeOperation with
    | Some w => Some w
    | None => storedWriteOperation s
    end.
Proof.
  unfold setValue. destruct options as [o|]; [|reflexivity].
  simpl. destruct (writeOperation o); reflexivity.
Qed.

Lemma setValue_frame (v : jsval) (options : option Options) (s : UiImage) :
  (setValue v options s).1 =
    set_storedWriteOperation (storedWriteOperation (setValue v options s).1) s.
Proof.
  unfold setValue. destruct options as [o|]; [|destruct s; reflexivity].
  destruct (writeOperation o); destruct s; reflexivity.
Qed.

Lemma setValue_selectedFile (v : jsval) (options : option Options)
    (s : UiImage) :
  selectedFile (setValue v options s).1 = selectedFile s.
Proof.
  unfold setValue. destruct options as [o|]; [|reflexivity].
  destruct (writeOperation o); reflexivity.
Qed.

(** C5. [setValue] keeps the write operation of its bundle and nothing
    else of it; a second call replaces what the first stored, so a send
    after two calls invokes the second function and not the first; and
    [setValue] assigns no other field and calls nothing (no read, no
    observe). *)
Theorem setValue_last_write_wins (v1 v2 : jsval) (o1 o2 : Options)
    (w1 w2 : fnref) (s : UiImage) (file : File) (now : Z) :
  writeOperation o1 = Some w1 ->
  writeOperation o2 = Some w2 ->
  selectedFile s = Some file ->
  storedWriteOperation
    (setValue v2 (Some o2) (setValue v1 (Some o1) s).1).1 = Some w2
  /\ (handleSend_enter now
        (setValue v2 (Some o2) (setValue v1 (Some o1) s).1).1).2
     = [CallWrite w2 file]
  /\ (w1 ≠ w2 -> ∀ f,
        CallWrite w1 f ∉
          (handleSend_enter now
             (setValue v2 (Some o2) (setValue v1 (Some o1) s).1).1).2)
  /\ (∀ v options s0,
        (setValue v options s0).2 = []
        /\ (setValue v options s0).1 =
             set_storedWriteOperation
               (storedWriteOperation (setValue v options s0).1) s0
        /\ storedWriteOperation (setValue v options s0).1 =
             match options ≫= writeOperation with
             | Some w => Some w
             | None => storedWriteOperation s0
             end)
  /\ (∀ v r w o s0,
        setValue v (Some (mkOptions r w o)) s0
          = setValue v (Some (mkOptions None w None)) s0).
Proof.
  intros H1 H2 Hf.
  set (s2 := (setValue v2 (Some o2) (setValue v1 (Some o1) s).1).1).
  assert (Hst : storedWriteOperation s2 = Some w2).
  { subst s2. rewrite setValue_stored. simpl. rewrite H2. reflexivity. }
  assert (Hsel : selectedFile s2 = Some file).
  { subst s2. rewrite !setValue_selectedFile. exact Hf. }
  assert (Hcalls : (handleSend_enter now s2).2 = [CallWrite w2 file]).
  { rewrite (handleSend_enter_ready now s2 file w2 Hsel Hst). reflexivity. }
  split; [exact Hst|]. split; [exact Hcalls|]. split; [|split].
  - intros Hne f Hin. rewrite Hcalls in Hin.
    apply list_elem_of_singleton in Hin. congruence.
  - intros v options s0. split; [apply setValue_calls_nothing|].
    split; [apply setValue_frame|apply setValue_stored].
  - reflexivity.
Qed.

(** ** Cancel *)

(** C6. Cancel with a file selected clears the selected file and resets the
    value of the file input; the image URL and the metadata are not
    assigned, so the image stays on display. *)
Theorem cancel_keeps_image_and_metadata (s : UiImage) (file : File) :
  selectedFile s = Some file ->
  selectedFile (onCancelClick s) = None
  /\ fileInput_value (onCancelClick s) = ""
  /\ currentImageUrl (onCancelClick s) = currentImageUrl s
  /\ metadata (onCancelClick s) = metadata s
  /\ render_content (onCancelClick s) = render_content s
  /\ render_lastUpdate (onCancelClick s) = render_lastUpdate s.
Proof. intros _. repeat split. Qed.

(** ** Display texts *)

(** C8. The subtitle is the " / "-join of the labels Read-only, Writable,
    Live (in that order) whose flag is set, and "Image" when none is. *)
Theorem getSubtitle_joins_set_flags (s : UiImage) :
  getSubtitle s = subtitle_spec (canRead s) (canWrite s) (canObserve s)
  /\ getSubtitle s =
       match canRead s, canWrite s, canObserve s with
       | false, false, false => "Image"
       | true, false, false => "Read-only"
       | false, true, false => "Writable"
       | false, false, true => "Live"
       | true, true, false => "Read-only / Writable"
       | true, false, true => "Read-only / Live"
       | false, true, true => "Writable / Live"
       | true, true, true => "Read-only / Writable / Live"
       end.
Proof.
  unfold getSubtitle, subtitle_spec, subtitle_labels.
  destruct (canRead s), (canWrite s), (canObserve s);
    split; vm_compute; reflexivity.
Qed.

(** C9. The placeholder is "Image Placeholder" when [canRead] is set,
    otherwise "Waiting for connection..." when [canObserve] is set,
    otherwise "No image available."; [canWrite] plays no part. *)
Theorem getPlaceholderText_first_match (s : UiImage) :
  (canRead s = true -> getPlaceholderText s = "Image Placeholder")
  /\ (canRead s = false -> canObserve s = true ->
        getPlaceholderText s = "Waiting for connection...")
  /\ (canRead s = false -> canObserve s = false ->
        getPlaceholderText s = "No image available.")
  /\ (canWrite s = true -> canRead s = false -> canObserve s = false ->
        getPlaceholderText s = "No image available.").
Proof.
  unfold getPlaceholderText.
  repeat split; intros; repeat match goal with H : _ = _ |- _ => rewrite H end;
    reflexivity.
Qed.

(** ** Metadata *)

Lemma spread_null (now : Z) :
  spread_lastUpdated None now = {[ "lastUpdated" := VDate now ]}.
Proof. unfold spread_lastUpdated. simpl. apply insert_empty. Qed.

Lemma singleton_not_ImageMetadata (now : Z) :
  is_ImageMetadata {[ "lastUpdated" := VDate now ]} = false.
Proof.
  unfold is_ImageMetadata.
  rewrite (lookup_singleton_ne "lastUpdated" "format") by discriminate.
  reflexivity.
Qed.

Example send_before_decode_runs :
  comp <$> run (boot false true false) send_before_decode =
    Some {| canRead := false; canWrite := true; canObserve := false;
            isObserving := false; selectedFile := Some photo;
            currentImageUrl := None;
            metadata := Some {[ "lastUpdated" := VDate 30 ]};
            loading := false;
            statusText := "Sent successfully"; statusType := success;
            storedWriteOperation := Some upload;
            fileInput_value := "C:\fakepath\photo.png" |}.
Proof. vm_compute. reflexivity. Qed.

Example decode_before_load_runs :
  (λ w, (metadata (comp w), render_lastUpdate (comp w),
         metadata_well_typed (comp w)))
    <$> run (boot false true false) decode_before_load =
    Some (Some {[ "lastUpdated" := VDate 15 ]}, LocaleTime 15, false).
Proof. vm_compute. reflexivity. Qed.

Lemma send_before_decode_reachable :
  ∃ s, reachable s /\ metadata s = Some {[ "lastUpdated" := VDate 30 ]}
       /\ metadata_well_typed s = false.
Proof.
  destruct (run (boot false true false) send_before_decode) as [w|] eqn:E;
    [|vm_compute in E; discriminate].
  exists (comp w). split.
  - exists false, true, false, send_before_decode, w. split; [exact E|reflexivity].
  - vm_compute in E. injection E as <-. split; vm_compute; reflexivity.
Qed.

(** C10. When [updateStatus] touches the timestamp while [metadata] is
    [null], the new metadata object has the single property [lastUpdated]:
    format, width, height and size are absent.  The "Last update" row shows
    that time all the same.  Such a state is reachable, so "metadata is null
    or a full ImageMetadata record" is not an invariant of the component. *)
Theorem updateStatus_on_null_metadata (msg : string) (type : StatusType)
    (now : Z) (s : UiImage) :
  metadata s = None ->
  touches_timestamp type s = true ->
  metadata (updateStatus msg type now s)
    = Some {[ "lastUpdated" := VDate now ]}
  /\ metadata_get (metadata (updateStatus msg type now s)) "format" = None
  /\ metadata_get (metadata (updateStatus msg type now s)) "width" = None
  /\ metadata_get (metadata (updateStatus msg type now s)) "height" = None
  /\ metadata_get (metadata (updateStatus msg type now s)) "size" = None
  /\ render_lastUpdate (updateStatus msg type now s) = LocaleTime now
  /\ metadata_well_typed (updateStatus msg type now s) = false
  /\ ¬ (∀ s0, reachable s0 -> metadata_well_typed s0 = true).
Proof.
  intros Hnull Hfire.
  assert (Hmd : metadata (updateStatus msg type now s)
                = Some {[ "lastUpdated" := VDate now ]}).
  { rewrite updateStatus_metadata, Hfire, Hnull, spread_null. reflexivity. }
  split; [exact Hmd|].
  unfold render_lastUpdate, metadata_well_typed. rewrite Hmd. simpl.
  rewrite !lookup_singleton_ne by discriminate.
  rewrite lookup_singleton_eq, singleton_not_ImageMetadata.
  repeat split.
  intros Hinv.
  destruct send_before_decode_reachable as (s0 & Hr & _ & Hbad).
  specialize (Hinv s0 Hr). unfold metadata_well_typed in Hbad.
  congruence.
Qed.

(** ** Invariants of the running component *)

#[local] Arguments updateStatus : simpl never.

Lemma run_invariant (P : World -> Prop) :
  (∀ w e w', P w -> step w e = Some w' -> P w') ->
  ∀ es w w', P w -> run w es = Some w' -> P w'.
Proof.
  intros Hstep es. induction es as [|e es IH]; intros w w' HP Hrun.
  - simpl in Hrun. injection Hrun as <-. exact HP.
  - simpl in Hrun. destruct (step w e) as [w1|] eqn:E; [|discriminate].
    exact (IH w1 w' (Hstep w e w1 HP E) Hrun).
Qed.

Lemma updateStatus_url (msg : string) (type : StatusType) (now : Z)
    (s : UiImage) :
  currentImageUrl (updateStatus msg type now s) = currentImageUrl s.
Proof. unfold updateStatus. destruct (touches_timestamp _ _); reflexivity. Qed.

Lemma updateStatus_isObserving (msg : string) (type : StatusType) (now : Z)
    (s : UiImage) :
  isObserving (updateStatus msg type now s) = isObserving s.
Proof. unfold updateStatus. destruct (touches_timestamp _ _); reflexivity. Qed.

Lemma step_steady (w : World) (e : event) (w' : World) :
  steady (comp w) -> step w e = Some w' -> steady (comp w').
Proof.
  unfold steady. intros [Hobs Hurl] Hstep.
  destruct e; simpl in Hstep.
  - destruct (setValue value options (comp w)) as [s' cs] eqn:E.
    injection Hstep as <-. simpl.
    pose proof (setValue_frame value options (comp w)) as Hf.
    rewrite E in Hf. simpl in Hf. rewrite Hf. simpl. auto.
  - destruct (input_rendered (comp w)); [|discriminate].
    destruct (handleFileSelect files now _) as [s' cs] eqn:E.
    injection Hstep as <-. simpl.
    unfold handleFileSelect in E. destruct (files !! 0%nat) as [f|].
    + simpl in E. rewrite Hobs in E. injection E as <- <-. simpl. auto.
    + injection E as <- <-. simpl. auto.
  - destruct (pending_reads w); [discriminate|]. injection Hstep as <-.
    simpl. unfold reader_onload.
    rewrite updateStatus_url, updateStatus_isObserving.
    destruct (truthy_str result) eqn:Et; simpl; [|auto].
    split; [exact Hobs|]. intros ->. discriminate.
  - destruct (file_actions_rendered (comp w)); [|discriminate].
    destruct (handleSend_enter now (comp w)) as [s' cs] eqn:E.
    injection Hstep as <-. simpl. unfold handleSend_enter in E.
    destruct (selectedFile (comp w)), (storedWriteOperation (comp w));
      injection E as <- <-; auto.
    rewrite updateStatus_url, updateStatus_isObserving. simpl. auto.
  - destruct (pending_sends w); [discriminate|]. injection Hstep as <-.
    simpl. unfold handleSend_resume.
    destruct o; simpl;
      rewrite ?updateStatus_url, ?updateStatus_isObserving; auto.
  - destruct (file_actions_rendered (comp w)); [|discriminate].
    injection Hstep as <-. simpl. auto.
  - destruct (truthy_str (currentImageUrl (comp w))); [|discriminate].
    injection Hstep as <-. simpl. auto.
  - destruct (truthy_str (currentImageUrl (comp w))); [|discriminate].
    injection Hstep as <-. simpl. unfold onImageError.
    rewrite updateStatus_url, updateStatus_isObserving. auto.
Qed.

Lemma reachable_steady (s : UiImage) : reachable s -> steady s.
Proof.
  intros (r & w & o & es & w' & Hrun & <-).
  apply (run_invariant (λ w, steady (comp w)) step_steady es _ _ ) in Hrun;
    [exact Hrun|].
  split; [reflexivity|discriminate].
Qed.


(** The "Live stopped for selection" branch of [handleFileSelect] is never
    taken. *)
Lemma reachable_handleFileSelect (files : list File) (now : Z) (s : UiImage) :
  reachable s ->
  handleFileSelect files now s =
    match files !! 0%nat with
    | Some file => (set_selectedFile (Some file) s, [ReadAsDataURL file])
    | None => (s, [])
    end.
Proof.
  intros Hr. destruct (reachable_steady s Hr) as [Hobs _].
  unfold handleFileSelect. destruct (files !! 0%nat); [|reflexivity].
  simpl. rewrite Hobs. reflexivity.
Qed.

(** A click on Send with no stored operation leaves the whole world as it
    was: nothing becomes pending and nothing is called. *)
Lemma step_ClickSend_unconfigured (w : World) (now : Z) (w' : World) :
  storedWriteOperation (comp w) = None ->
  step w (ClickSend now) = Some w' ->
  w' = w.
Proof.
  intros Hno Hstep. simpl in Hstep.
  destruct (file_actions_rendered (comp w)); [|discriminate].
  unfold handleSend_enter in Hstep. rewrite Hno in Hstep.
  destruct (selectedFile (comp w)); injection Hstep as <-;
    simpl; rewrite app_nil_r, Nat.add_0_r; destruct w; reflexivity.
Qed.

(** ** The theorems at work on the sample session *)

Lemma handleSend_lifecycle_witness :
  selectedFile ready_to_send = Some photo
  /\ storedWriteOperation ready_to_send = Some upload
  /\ loading sending = true
  /\ statusText sending = "Sending..."
  /\ (handleSend_enter 20 ready_to_send).2 = [CallWrite upload photo]
  /\ loading (handleSend Rejected 20 30 ready_to_send).1 = false.
Proof.
  split; [reflexivity|]. split; [reflexivity|].
  destruct (handleSend_lifecycle ready_to_send photo upload 20
              eq_refl eq_refl) as (Hl & Ht & _ & Hc & _ & _ & Hrun).
  split; [exact Hl|]. split; [exact Ht|]. split; [exact Hc|].
  exact (proj2 (Hrun Rejected 30)).
Defined.

Lemma handleSend_silent_noop_witness :
  (selectedFile file_picked = None
   \/ storedWriteOperation file_picked = None)
  /\ handleSend_enter 20 file_picked = (file_picked, [])
  /\ loading (handleSend_enter 20 file_picked).1 = false.
Proof.
  split; [right; reflexivity|].
  destruct (handleSend_silent_noop file_picked 20 (or_intror eq_refl))
    as (He & _ & _ & _ & _ & _ & _ & Hl).
  split; [exact He|exact Hl].
Defined.

Lemma setValue_last_write_wins_witness :
  writeOperation with_upload = Some upload
  /\ writeOperation with_upload_v2 = Some upload_v2
  /\ selectedFile file_picked = Some photo
  /\ (handleSend_enter 20
        (setValue (VStr "") (Some with_upload_v2)
           (setValue (VNum 0) (Some with_upload) file_picked).1).1).2
     = [CallWrite upload_v2 photo].
Proof.
  split; [reflexivity|]. split; [reflexivity|]. split; [reflexivity|].
  exact (proj1 (proj2
    (setValue_last_write_wins (VNum 0) (VStr "") with_upload with_upload_v2
       upload upload_v2 file_picked photo 20 eq_refl eq_refl eq_refl))).
Defined.

Lemma cancel_keeps_image_and_metadata_witness :
  selectedFile ready_to_send = Some photo
  /\ selectedFile (onCancelClick ready_to_send) = None
  /\ currentImageUrl (onCancelClick ready_to_send)
     = currentImageUrl ready_to_send.
Proof.
  split; [reflexivity|].
  destruct (cancel_keeps_image_and_metadata ready_to_send photo eq_refl)
    as (Hs & _ & Hu & _).
  split; [exact Hs|exact Hu].
Defined.

Lemma updateStatus_on_null_metadata_witness :
  metadata sending = None
  /\ touches_timestamp success sending = true
  /\ metadata (updateStatus "Sent successfully" success 30 sending)
     = Some {[ "lastUpdated" := VDate 30 ]}
  /\ render_lastUpdate (updateStatus "Sent successfully" success 30 sending)
     = LocaleTime 30.
Proof.
  split; [reflexivity|]. split; [reflexivity|].
  destruct (updateStatus_on_null_metadata "Sent successfully" success 30
              sending eq_refl eq_refl) as (Hm & _ & _ & _ & _ & Hr & _).
  split; [exact Hm|exact Hr].
Defined.

(** * Further properties *)

(** ** File selection and decoding *)

Lemma reachable_initial (r w o : bool) : reachable (initial r w o).
Proof. exists r, w, o, [], (boot r w o). split; reflexivity. Qed.

(** X1. In a state the component can reach, a change event of the file
    input selects the first file of the list and no other, starts one
    FileReader read of it, and assigns nothing else: status, image URL,
    metadata and loading flag keep their values, whatever was selected or
    displayed before.  A change event without a file does nothing. *)
Theorem handleFileSelect_selects_first (s : UiImage) (f : File)
    (rest : list File) (now : Z) :
  reachable s ->
  handleFileSelect (f :: rest) now s
    = (set_selectedFile (Some f) s, [ReadAsDataURL f])
  /\ handleFileSelect (f :: rest) now s = handleFileSelect [f] now s
  /\ statusText (handleFileSelect (f :: rest) now s).1 = statusText s
  /\ currentImageUrl (handleFileSelect (f :: rest) now s).1
     = currentImageUrl s
  /\ metadata (handleFileSelect (f :: rest) now s).1 = metadata s
  /\ loading (handleFileSelect (f :: rest) now s).1 = loading s
  /\ handleFileSelect [] now s = (s, []).
Proof.
  intros Hr.
  pose proof (reachable_handleFileSelect (f :: rest) now s Hr) as H1.
  pose proof (reachable_handleFileSelect [f] now s Hr) as H2.
  simpl in H1, H2. rewrite H1, H2. repeat split.
Qed.

Lemma handleFileSelect_selects_first_witness :
  reachable (initial false true false)
  /\ handleFileSelect [photo; scan] 10 (initial false true false)
     = (file_picked, [ReadAsDataURL photo]).
Proof.
  split; [apply reachable_initial|].
  exact (proj1 (handleFileSelect_selects_first (initial false true false)
                  photo [scan] 10 (reachable_initial false true false))).
Defined.

(** X2. When the FileReader finishes, the status becomes neutral
    "Displaying" in every case.  A non-empty result is stored as the image
    URL and the timestamp is set; an empty or missing result leaves the
    image URL as it was, so with no earlier image the card still shows the
    placeholder under the status "Displaying" and the metadata is not
    touched.  The selected file and the loading flag are not assigned. *)
Theorem reader_onload_displaying (result : option string) (now : Z)
    (s : UiImage) :
  statusText (reader_onload result now s) = "Displaying"
  /\ statusType (reader_onload result now s) = neutral
  /\ (truthy_str result = true ->
        currentImageUrl (reader_onload result now s) = result
        /\ metadata (reader_onload result now s)
           = Some (<["lastUpdated" := VDate now]> (default ∅ (metadata s))))
  /\ (truthy_str result = false ->
        currentImageUrl (reader_onload result now s) = currentImageUrl s)
  /\ (truthy_str result = false -> currentImageUrl s = None ->
        render_content (reader_onload result now s)
          = Placeholder (getPlaceholderText s)
        /\ metadata (reader_onload result now s) = metadata s)
  /\ selectedFile (reader_onload result now s) = selectedFile s
  /\ loading (reader_onload result now s) = loading s.
Proof.
  unfold reader_onload.
  split; [apply updateStatus_status|]. split; [apply updateStatus_status|].
  split; [|split; [|split; [|split]]].
  - intros Ht. rewrite Ht, updateStatus_url, updateStatus_metadata.
    unfold touches_timestamp. simpl. rewrite Ht. simpl. split; reflexivity.
  - intros Hf. rewrite Hf, updateStatus_url. reflexivity.
  - intros Hf Hnone. rewrite Hf. unfold render_content.
    rewrite updateStatus_url, Hnone, updateStatus_metadata.
    unfold touches_timestamp. rewrite Hnone. simpl. split; [|reflexivity].
    unfold getPlaceholderText, updateStatus.
    destruct (touches_timestamp _ _); reflexivity.
  - rewrite updateStatus_frame. simpl. destruct (truthy_str result); reflexivity.
  - rewrite updateStatus_loading. destruct (truthy_str result); reflexivity.
Qed.

(** ** The image's load event *)

(** X3. [onImageLoad] replaces the metadata by a fresh full record: format
    "IMG", the natural width and height of the image, the size of the
    selected file (0 when no file is selected, for instance after Cancel)
    and the current time.  Nothing of the old metadata survives.  The
    loading flag is cleared; status, image URL and selected file are not
    assigned. *)
Theorem onImageLoad_fresh_record (naturalWidth naturalHeight now : Z)
    (s : UiImage) :
  (∃ md, metadata (onImageLoad naturalWidth naturalHeight now s) = Some md
     /\ is_ImageMetadata md = true
     /\ md !! "format" = Some (VStr "IMG")
     /\ md !! "width" = Some (VNum naturalWidth)
     /\ md !! "height" = Some (VNum naturalHeight)
     /\ md !! "size"
        = Some (VNum (match selectedFile s with
                      | Some f => file_size f
                      | None => 0
                      end))
     /\ md !! "lastUpdated" = Some (VDate now)
     /\ dom md = ({["format"; "width"; "height"; "size"; "lastUpdated"]}
                    : gset string))
  /\ (∀ old, onImageLoad naturalWidth naturalHeight now (set_metadata old s)
             = onImageLoad naturalWidth naturalHeight now s)
  /\ loading (onImageLoad naturalWidth naturalHeight now s) = false
  /\ statusText (onImageLoad naturalWidth naturalHeight now s) = statusText s
  /\ statusType (onImageLoad naturalWidth naturalHeight now s) = statusType s
  /\ currentImageUrl (onImageLoad naturalWidth naturalHeight now s)
     = currentImageUrl s
  /\ selectedFile (onImageLoad naturalWidth naturalHeight now s)
     = selectedFile s.
Proof.
  split; [|repeat split].
  eexists. split; [reflexivity|].
  assert (Hsize : from_option file_size 0 (selectedFile s)
                  = match selectedFile s with
                    | Some f => file_size f
                    | None => 0
                    end) by (destruct (selectedFile s); reflexivity).
  rewrite Hsize. unfold is_ImageMetadata.
  repeat first [ rewrite lookup_insert_eq
               | rewrite lookup_insert_ne by discriminate ].
  repeat split.
Qed.

(** ** More on the send action *)

(** X4. When the write operation is fulfilled the metadata timestamp
    becomes the time of settling and every other metadata property is
    kept; when it is rejected or throws the metadata is left as it is.
    Apart from status, loading flag and metadata the continuation assigns
    nothing: selected file, image URL, stored operation and input value
    stay. *)
Theorem handleSend_resume_timestamp (o : settled) (now : Z) (s : UiImage) :
  (o = Fulfilled ->
     metadata (handleSend_resume o now s)
       = Some (<["lastUpdated" := VDate now]> (default ∅ (metadata s)))
     /\ render_lastUpdate (handleSend_resume o now s) = LocaleTime now
     /\ ∀ key, key ≠ "lastUpdated" ->
          metadata_get (metadata (handleSend_resume o now s)) key
            = metadata_get (metadata s) key)
  /\ (o ≠ Fulfilled ->
        metadata (handleSend_resume o now s) = metadata s
        /\ render_lastUpdate (handleSend_resume o now s)
           = render_lastUpdate s)
  /\ selectedFile (handleSend_resume o now s) = selectedFile s
  /\ currentImageUrl (handleSend_resume o now s) = currentImageUrl s
  /\ storedWriteOperation (handleSend_resume o now s)
     = storedWriteOperation s
  /\ fileInput_value (handleSend_resume o now s) = fileInput_value s.
Proof.
  split; [|split].
  - intros ->.
    assert (Hmd : metadata (handleSend_resume Fulfilled now s)
                  = Some (spread_lastUpdated (metadata s) now)) by reflexivity.
    split; [exact Hmd|]. split.
    + unfold render_lastUpdate. rewrite Hmd. unfold spread_lastUpdated.
      rewrite lookup_insert_eq. reflexivity.
    + intros key Hkey. rewrite Hmd. simpl.
      apply spread_lastUpdated_other. exact Hkey.
  - intros Hne.
    assert (Hmd : metadata (handleSend_resume o now s) = metadata s).
    { destruct o; [congruence| |];
        exact (updateStatus_error_metadata "Failed to send" now s). }
    split; [exact Hmd|]. unfold render_lastUpdate. rewrite Hmd. reflexivity.
  - unfold handleSend_resume.
    destruct o; rewrite updateStatus_frame; repeat split.
Qed.

(** X5. The guard of [handleSend] does not look at the loading flag: with
    a file selected and an operation stored, a click on Send while an
    earlier send is still running calls the operation again with the same
    file, and two sends are then in flight.  When the first of them
    settles, the loading flag is cleared although the other is still
    running. *)
Theorem send_not_guarded_by_loading (w : World) (file : File) (op : fnref)
    (now : Z) (n : nat) :
  canWrite (comp w) = true ->
  selectedFile (comp w) = Some file ->
  storedWriteOperation (comp w) = Some op ->
  loading (comp w) = true ->
  pending_sends w = S n ->
  ∃ w', step w (ClickSend now) = Some w'
        /\ calls w' = (calls w ++ [CallWrite op file])%list
        /\ pending_sends w' = S (S n)
        /\ loading (comp w') = true
        /\ ∀ o now', ∃ w'',
             step w' (WriteSettled o now') = Some w''
             /\ loading (comp w'') = false
             /\ pending_sends w'' = S n.
Proof.
  intros Hw Hf Ho _ Hn. simpl. unfold file_actions_rendered.
  rewrite Hw, Hf, (handleSend_enter_ready now (comp w) file op Hf Ho).
  simpl. eexists. split; [reflexivity|]. simpl.
  rewrite updateStatus_loading, Hn.
  replace (S n + 1)%nat with (S (S n)) by lia.
  repeat split. intros o now'. eexists. split; [reflexivity|].
  split; reflexivity.
Qed.

(** ** Cancel and work in flight *)

Lemma touches_timestamp_url (type : StatusType) (s s' : UiImage) :
  currentImageUrl s' = currentImageUrl s ->
  touches_timestamp type s' = touches_timestamp type s.
Proof. intros H. unfold touches_timestamp. rewrite H. reflexivity. Qed.

Lemma updateStatus_cancel (msg : string) (type : StatusType) (now : Z)
    (s : UiImage) :
  updateStatus msg type now (onCancelClick s)
    = onCancelClick (updateStatus msg type now s).
Proof.
  unfold updateStatus.
  rewrite (touches_timestamp_url type s
             (set_status msg type (onCancelClick s))) by reflexivity.
  rewrite (touches_timestamp_url type s (set_status msg type s))
    by reflexivity.
  destruct (touches_timestamp type s); reflexivity.
Qed.

(** X6. Cancel aborts nothing.  A FileReader result or a settled write
    that arrives after Cancel has the same effect as before it: the two
    handlers commute with Cancel.  So a picked file that is cancelled
    before it is decoded still becomes the displayed image, with no file
    selected; and an image that loads after Cancel is recorded with size
    0. *)
Theorem cancel_aborts_nothing (s : UiImage) (now : Z) :
  (∀ result,
     reader_onload result now (onCancelClick s)
       = onCancelClick (reader_onload result now s))
  /\ (∀ o,
        handleSend_resume o now (onCancelClick s)
          = onCancelClick (handleSend_resume o now s))
  /\ (∀ url, url ≠ "" ->
        render_content (reader_onload (Some url) now (onCancelClick s))
          = Img url
        /\ selectedFile (reader_onload (Some url) now (onCancelClick s))
           = None)
  /\ (∀ nw nh,
        metadata_get (metadata (onImageLoad nw nh now (onCancelClick s)))
          "size" = Some (VNum 0)).
Proof.
  split; [|split; [|split]].
  - intros result. unfold reader_onload.
    destruct (truthy_str result); rewrite <- updateStatus_cancel;
      reflexivity.
  - intros o. unfold handleSend_resume.
    destruct o; rewrite updateStatus_cancel; reflexivity.
  - intros url Hurl.
    assert (Ht : truthy_str (Some url) = true).
    { apply truthy_str_Some. exists url. split; [reflexivity|exact Hurl]. }
    unfold reader_onload. rewrite Ht. split.
    + unfold render_content. rewrite updateStatus_url.
      cbn [currentImageUrl set_currentImageUrl]. rewrite Ht. reflexivity.
    + rewrite updateStatus_frame. reflexivity.
  - intros nw nh. reflexivity.
Qed.

(** ** Invariants of every session *)

Lemma step_comp (w : World) (e : event) (w' : World) :
  step w e = Some w' -> comp w' = handle e (comp w).
Proof.
  intros Hstep. destruct e; simpl in Hstep; simpl handle;
    repeat case_match; simplify_eq; reflexivity.
Qed.

Lemma run_comp_invariant (P : UiImage -> Prop) :
  (∀ e s, P s -> P (handle e s)) ->
  ∀ es w w', P (comp w) -> run w es = Some w' -> P (comp w').
Proof.
  intros Hh es w w' HP Hrun.
  apply (run_invariant (λ w, P (comp w))) with (es := es) (w := w);
    [|exact HP|exact Hrun].
  intros w0 e w1 HP0 Hstep. rewrite (step_comp w0 e w1 Hstep).
  apply Hh. exact HP0.
Qed.

Lemma handleSend_enter_frame (now : Z) (s : UiImage) :
  (handleSend_enter now s).1 = s
  \/ (handleSend_enter now s).1
     = updateStatus "Sending..." neutral now (set_loading true s).
Proof.
  unfold handleSend_enter.
  destruct (selectedFile s), (storedWriteOperation s); auto.
Qed.

Lemma handle_flags (e : event) (s : UiImage) :
  canRead (handle e s) = canRead s
  /\ canWrite (handle e s) = canWrite s
  /\ canObserve (handle e s) = canObserve s.
Proof.
  destruct e; simpl handle.
  - rewrite setValue_frame. repeat split.
  - unfold handleFileSelect. destruct (files !! 0%nat); [|repeat split].
    simpl. destruct (isObserving s); [rewrite updateStatus_frame|];
      repeat split.
  - unfold reader_onload. rewrite updateStatus_frame.
    destruct (truthy_str result); repeat split.
  - destruct (handleSend_enter_frame now s) as [-> | ->];
      [|rewrite updateStatus_frame]; repeat split.
  - unfold handleSend_resume. destruct o; rewrite updateStatus_frame;
      repeat split.
  - repeat split.
  - repeat split.
  - unfold onImageError. rewrite updateStatus_frame. repeat split.
Qed.

(** X7. The capability props are never assigned by the component: after
    any sequence of events they have the values the card was created
    with, so the subtitle and the placeholder text never change. *)
Theorem props_never_change (r cw o : bool) (es : list event) (w' : World) :
  run (boot r cw o) es = Some w' ->
  canRead (comp w') = r
  /\ canWrite (comp w') = cw
  /\ canObserve (comp w') = o
  /\ getSubtitle (comp w') = getSubtitle (initial r cw o)
  /\ getPlaceholderText (comp w') = getPlaceholderText (initial r cw o).
Proof.
  intros Hrun.
  assert (H : canRead (comp w') = r /\ canWrite (comp w') = cw
              /\ canObserve (comp w') = o).
  { apply (run_comp_invariant
             (λ s, canRead s = r /\ canWrite s = cw /\ canObserve s = o))
      with (es := es) (w := boot r cw o); [|repeat split|exact Hrun].
    intros e s (H1 & H2 & H3).
    destruct (handle_flags e s) as (-> & -> & ->). auto. }
  destruct H as (H1 & H2 & H3).
  unfold getSubtitle, getPlaceholderText. rewrite H1, H2, H3.
  repeat split.
Qed.

Lemma props_never_change_witness :
  ∃ w', run (boot false true false) send_before_decode = Some w'
        /\ getSubtitle (comp w') = "Writable".
Proof.
  destruct (run (boot false true false) send_before_decode) as [w'|] eqn:E;
    [|vm_compute in E; discriminate].
  exists w'. split; [reflexivity|].
  exact (proj1 (proj2 (proj2 (proj2
    (props_never_change false true false send_before_decode w' E))))).
Defined.







(** ** The shape of the metadata *)









Lemma updateStatus_other_keys (msg : string) (type : StatusType) (now : Z)
    (s : UiImage) (key : string) :
  key ≠ "lastUpdated" ->
  metadata_get (metadata (updateStatus msg type now s)) key
    = metadata_get (metadata s) key.
Proof.
  intros Hkey. rewrite updateStatus_metadata.
  destruct (touches_timestamp type s); [|reflexivity].
  simpl. apply spread_lastUpdated_other. exact Hkey.
Qed.

(** X10. Format, width, height and size are written by the image's load
    event and by nothing else: every other event leaves each metadata
    property except [lastUpdated] as it was.  The figures shown for an
    image therefore stay those of the last image that loaded, also after
    another file has been picked or sent. *)
Theorem only_image_load_writes_dimensions (e : event) (s : UiImage)
    (key : string) :
  (∀ nw nh now, e ≠ ImageLoad nw nh now) ->
  key ≠ "lastUpdated" ->
  metadata_get (metadata (handle e s)) key = metadata_get (metadata s) key.
Proof.
  intros Hne Hkey. destruct e; simpl handle.
  - rewrite setValue_frame. reflexivity.
  - unfold handleFileSelect. destruct (files !! 0%nat); [|reflexivity].
    simpl. destruct (isObserving s); [|reflexivity].
    rewrite updateStatus_other_keys by exact Hkey. reflexivity.
  - unfold reader_onload. rewrite updateStatus_other_keys by exact Hkey.
    destruct (truthy_str result); reflexivity.
  - destruct (handleSend_enter_frame now s) as [-> | ->]; [reflexivity|].
    rewrite updateStatus_other_keys by exact Hkey. reflexivity.
  - unfold handleSend_resume.
    change (metadata (set_loading false ?x)) with (metadata x).
    destruct o; apply updateStatus_other_keys; exact Hkey.
  - reflexivity.
  - exfalso. exact (Hne _ _ _ eq_refl).
  - unfold onImageError. apply updateStatus_other_keys. exact Hkey.
Qed.

Lemma only_image_load_writes_dimensions_witness :
  (∀ nw nh now, ClickCancel ≠ ImageLoad nw nh now)
  /\ "width" ≠ "lastUpdated"
  /\ metadata_get (metadata (handle ClickCancel ready_to_send)) "width"
     = metadata_get (metadata ready_to_send) "width".
Proof.
  assert (H1 : ∀ nw nh now, ClickCancel ≠ ImageLoad nw nh now)
    by (intros; discriminate).
  assert (H2 : "width" ≠ "lastUpdated") by discriminate.
  split; [exact H1|]. split; [exact H2|].
  exact (only_image_load_writes_dimensions ClickCancel ready_to_send
           "width" H1 H2).
Defined.

(** ** What is in flight, and what is called *)

Lemma handleSend_enter_cases (now : Z) (s : UiImage) :
  handleSend_enter now s = (s, [])
  \/ ∃ file op,
       selectedFile s = Some file /\ storedWriteOperation s = Some op
       /\ handleSend_enter now s
          = (updateStatus "Sending..." neutral now (set_loading true s),
             [CallWrite op file]).
Proof.
  unfold handleSend_enter.
  destruct (selectedFile s) as [file|]; [|left; reflexivity].
  destruct (storedWriteOperation s) as [op|]; [|left; reflexivity].
  right. exists file, op. repeat split.
Qed.

Lemma step_spinner (w : World) (e : event) (w' : World) :
  (loading (comp w) = true -> (0 < pending_sends w)%nat) ->
  step w e = Some w' ->
  loading (comp w') = true -> (0 < pending_sends w')%nat.
Proof.
  intros Hinv Hstep. destruct e; simpl in Hstep.
  - destruct (setValue value options (comp w)) as [s' cs] eqn:E.
    injection Hstep as <-. simpl.
    pose proof (setValue_frame value options (comp w)) as Hf.
    rewrite E in Hf. simpl in Hf. rewrite Hf. exact Hinv.
  - destruct (input_rendered (comp w)); [|discriminate].
    destruct (handleFileSelect files now _) as [s' cs] eqn:E.
    injection Hstep as <-. simpl.
    unfold handleFileSelect in E. destruct (files !! 0%nat).
    + injection E as <- <-. simpl.
      destruct (isObserving (comp w));
        [rewrite updateStatus_loading|]; exact Hinv.
    + injection E as <- <-. exact Hinv.
  - destruct (pending_reads w); [discriminate|]. injection Hstep as <-.
    simpl. unfold reader_onload. rewrite updateStatus_loading.
    destruct (truthy_str result); exact Hinv.
  - destruct (file_actions_rendered (comp w)); [|discriminate].
    destruct (handleSend_enter_cases now (comp w))
      as [E|(file & op & _ & _ & E)]; rewrite E in Hstep;
      injection Hstep as <-; simpl.
    + rewrite Nat.add_0_r. exact Hinv.
    + intros _. lia.
  - destruct (pending_sends w); [discriminate|]. injection Hstep as <-.
    simpl. discriminate.
  - destruct (file_actions_rendered (comp w)); [|discriminate].
    injection Hstep as <-. exact Hinv.
  - destruct (truthy_str (currentImageUrl (comp w))); [|discriminate].
    injection Hstep as <-. simpl. discriminate.
  - destruct (truthy_str (currentImageUrl (comp w))); [|discriminate].
    injection Hstep as <-. simpl. unfold onImageError.
    rewrite updateStatus_loading. exact Hinv.
Qed.

(** X11. The loading overlay is on only while a send is in flight: in every
    state of a session, a set loading flag means that at least one call of
    the write operation has not settled yet. *)
Theorem spinner_means_send_in_flight (r cw o : bool) (es : list event)
    (w' : World) :
  run (boot r cw o) es = Some w' ->
  loading (comp w') = true ->
  (0 < pending_sends w')%nat.
Proof.
  intros Hrun.
  apply (run_invariant
           (λ w, loading (comp w) = true -> (0 < pending_sends w)%nat))
    with (es := es) (w := boot r cw o); [|discriminate|exact Hrun].
  intros w e w1 Hinv Hstep. exact (step_spinner w e w1 Hinv Hstep).
Qed.

Lemma step_read_only (r o : bool) (w : World) (e : event) (w' : World) :
  (∃ op, w = mkWorld (set_storedWriteOperation op (initial r false o))
             0 0 []) ->
  step w e = Some w' ->
  ∃ op, w' = mkWorld (set_storedWriteOperation op (initial r false o))
               0 0 [].
Proof.
  intros [op ->] Hstep. destruct e; simpl in Hstep; try discriminate.
  destruct options as [[rd [wr|] ob]|]; simpl in Hstep;
    injection Hstep as <-; eexists; reflexivity.
Qed.

(** X12. A card without write capability is inert.  Whatever events arrive,
    nothing is ever called, nothing is in flight, no file gets selected
    and no image is shown: the card stays in its initial state, apart from
    the write operation that [setValue] may store, and shows the
    placeholder. *)
Theorem read_only_card_is_inert (r o : bool) (es : list event) (w' : World) :
  run (boot r false o) es = Some w' ->
  calls w' = []
  /\ pending_reads w' = 0%nat
  /\ pending_sends w' = 0%nat
  /\ comp w'
     = set_storedWriteOperation (storedWriteOperation (comp w'))
         (initial r false o)
  /\ render_content (comp w')
     = Placeholder (getPlaceholderText (initial r false o)).
Proof.
  intros Hrun.
  assert (H : ∃ op, w' = mkWorld
                (set_storedWriteOperation op (initial r false o)) 0 0 []).
  { apply (run_invariant
             (λ w, ∃ op, w = mkWorld
                (set_storedWriteOperation op (initial r false o)) 0 0 []))
      with (es := es) (w := boot r false o); [| |exact Hrun].
    - intros w e w1. apply step_read_only.
    - exists None. reflexivity. }
  destruct H as [op ->]. repeat split.
Qed.

Lemma handle_stored (e : event) (s : UiImage) :
  storedWriteOperation (handle e s)
    = match supplied_op e with
      | Some op => Some op
      | None => storedWriteOperation s
      end.
Proof.
  destruct e; simpl handle; simpl supplied_op.
  - rewrite setValue_stored. destruct options; reflexivity.
  - unfold handleFileSelect. destruct (files !! 0%nat); [|reflexivity].
    simpl. destruct (isObserving s); [rewrite updateStatus_frame|];
      reflexivity.
  - unfold reader_onload. rewrite updateStatus_frame.
    destruct (truthy_str result); reflexivity.
  - destruct (handleSend_enter_frame now s) as [-> | ->];
      [|rewrite updateStatus_frame]; reflexivity.
  - unfold handleSend_resume. destruct o; rewrite updateStatus_frame;
      reflexivity.
  - reflexivity.
  - reflexivity.
  - unfold onImageError. rewrite updateStatus_frame. reflexivity.
Qed.

Lemma handle_selected (e : event) (s : UiImage) :
  selectedFile (handle e s)
    = match e with
      | ClickCancel => None
      | _ => match picked_file e with
             | Some f => Some f
             | None => selectedFile s
             end
      end.
Proof.
  destruct e; simpl handle; simpl picked_file.
  - apply setValue_selectedFile.
  - unfold handleFileSelect. destruct (files !! 0%nat); [|reflexivity].
    simpl. destruct (isObserving s); [rewrite updateStatus_frame|];
      reflexivity.
  - unfold reader_onload. rewrite updateStatus_frame.
    destruct (truthy_str result); reflexivity.
  - destruct (handleSend_enter_frame now s) as [-> | ->];
      [|rewrite updateStatus_frame]; reflexivity.
  - unfold handleSend_resume. destruct o; rewrite updateStatus_frame;
      reflexivity.
  - reflexivity.
  - reflexivity.
  - unfold onImageError. rewrite updateStatus_frame. reflexivity.
Qed.

(** What one event can add to the history of calls. *)
Lemma step_calls (w : World) (e : event) (w' : World) (c : call) :
  step w e = Some w' ->
  c ∈ calls w' ->
  c ∈ calls w
  \/ (∃ f, picked_file e = Some f /\ c = ReadAsDataURL f)
  \/ (∃ op file, storedWriteOperation (comp w) = Some op
                 /\ selectedFile (comp w) = Some file
                 /\ c = CallWrite op file).
Proof.
  intros Hstep Hin. destruct e; simpl in Hstep.
  - rewrite (surjective_pairing (setValue value options (comp w))) in Hstep.
    rewrite setValue_calls_nothing in Hstep. injection Hstep as <-.
    simpl in Hin. rewrite app_nil_r in Hin. left. exact Hin.
  - destruct (input_rendered (comp w)); [|discriminate].
    destruct (handleFileSelect files now _) as [s' cs] eqn:E.
    injection Hstep as <-. simpl in Hin. apply elem_of_app in Hin.
    destruct Hin as [Hin|Hin]; [left; exact Hin|]. right. left.
    unfold handleFileSelect in E. simpl picked_file.
    destruct (files !! 0%nat) as [f|]; injection E as <- <-.
    + apply list_elem_of_singleton in Hin. exists f. auto.
    + apply elem_of_nil in Hin. contradiction.
  - destruct (pending_reads w); [discriminate|]. injection Hstep as <-.
    left. exact Hin.
  - destruct (file_actions_rendered (comp w)); [|discriminate].
    destruct (handleSend_enter_cases now (comp w))
      as [E|(file & op & Hf & Ho & E)]; rewrite E in Hstep;
      injection Hstep as <-; simpl in Hin.
    + rewrite app_nil_r in Hin. left. exact Hin.
    + apply elem_of_app in Hin. destruct Hin as [Hin|Hin]; [left; exact Hin|].
      apply list_elem_of_singleton in Hin. right. right.
      exists op, file. auto.
  - destruct (pending_sends w); [discriminate|]. injection Hstep as <-.
    left. exact Hin.
  - destruct (file_actions_rendered (comp w)); [|discriminate].
    injection Hstep as <-. left. exact Hin.
  - destruct (truthy_str (currentImageUrl (comp w))); [|discriminate].
    injection Hstep as <-. left. exact Hin.
  - destruct (truthy_str (currentImageUrl (comp w))); [|discriminate].
    injection Hstep as <-. left. exact Hin.
Qed.

Lemma call_from_mono (ops ops' : list fnref) (files files' : list File)
    (c : call) :
  call_from ops files c ->
  call_from (ops ++ ops') (files ++ files') c.
Proof.
  destruct c; simpl; rewrite ?elem_of_app; tauto.
Qed.

Lemma step_provenance (ops : list fnref) (files : list File) (w : World)
    (e : event) (w' : World) :
  provenance ops files w ->
  step w e = Some w' ->
  provenance (ops ++ supplied_ops [e]) (files ++ picked_files [e]) w'.
Proof.
  intros (Hc & Ho & Hf) Hstep.
  assert (Hops : supplied_ops [e]
                 = match supplied_op e with Some x => [x] | None => [] end)
    by (unfold supplied_ops; simpl; destruct (supplied_op e); reflexivity).
  assert (Hfiles : picked_files [e]
                   = match picked_file e with Some x => [x] | None => [] end)
    by (unfold picked_files; simpl; destruct (picked_file e); reflexivity).
  split; [|split].
  - intros c Hin.
    destruct (step_calls w e w' c Hstep Hin)
      as [Hold|[(f & Hp & ->)|(op & file & Hso & Hsf & ->)]].
    + apply call_from_mono, Hc, Hold.
    + unfold call_from. rewrite Hfiles, Hp. apply elem_of_app. right.
      apply list_elem_of_singleton. reflexivity.
    + unfold call_from. rewrite !elem_of_app. split; left; auto.
  - intros fn Hfn. rewrite (step_comp w e w' Hstep), handle_stored in Hfn.
    rewrite Hops. apply elem_of_app.
    destruct (supplied_op e) as [op|].
    + injection Hfn as ->. right. apply list_elem_of_singleton. reflexivity.
    + left. apply Ho, Hfn.
  - intros f Hsel. rewrite (step_comp w e w' Hstep), handle_selected in Hsel.
    rewrite Hfiles. apply elem_of_app.
    assert (Hcase : match picked_file e with
                    | Some f0 => Some f0
                    | None => selectedFile (comp w)
                    end = Some f)
      by (destruct e; first [exact Hsel|discriminate Hsel]).
    destruct (picked_file e) as [f0|].
    + injection Hcase as ->. right. apply list_elem_of_singleton. reflexivity.
    + left. apply Hf, Hcase.
Qed.

Lemma run_provenance (es : list event) :
  ∀ (ops : list fnref) (files : list File) (w w' : World),
    provenance ops files w ->
    run w es = Some w' ->
    provenance (ops ++ supplied_ops es) (files ++ picked_files es) w'.
Proof.
  induction es as [|e es IH]; intros ops files w w' Hp Hrun.
  - simpl in Hrun. injection Hrun as <-.
    unfold supplied_ops, picked_files. simpl. rewrite !app_nil_r. exact Hp.
  - simpl in Hrun. destruct (step w e) as [w1|] eqn:E; [|discriminate].
    pose proof (IH _ _ w1 w' (step_provenance ops files w e w1 Hp E) Hrun)
      as H.
    rewrite <- !app_assoc in H.
    unfold supplied_ops, picked_files in *.
    rewrite <- !omap_app in H. exact H.
Qed.

(** X13. The component calls only what it was given, on what the user
    picked.  In every session, each call of a write operation uses a
    function passed to an earlier [setValue] and a file picked in an
    earlier change event; each FileReader read is of a picked file; and no
    read or observe operation is ever called, although [setValue] accepts
    them. *)
Theorem calls_only_what_was_given (r cw o : bool) (es : list event)
    (w' : World) :
  run (boot r cw o) es = Some w' ->
  (∀ fn f, CallWrite fn f ∈ calls w' ->
     fn ∈ supplied_ops es /\ f ∈ picked_files es)
  /\ (∀ f, ReadAsDataURL f ∈ calls w' -> f ∈ picked_files es)
  /\ (∀ fn, CallRead fn ∉ calls w')
  /\ (∀ fn, CallObserve fn ∉ calls w').
Proof.
  intros Hrun.
  assert (Hp : provenance [] [] (boot r cw o)).
  { split; [|split]; simpl.
    - intros c Hin. apply elem_of_nil in Hin. contradiction.
    - discriminate.
    - discriminate. }
  destruct (run_provenance es [] [] _ w' Hp Hrun) as (Hc & _ & _).
  simpl in Hc.
  split; [|split; [|split]].
  - intros fn f Hin. exact (Hc _ Hin).
  - intros f Hin. exact (Hc _ Hin).
  - intros fn Hin. exact (Hc _ Hin).
  - intros fn Hin. exact (Hc _ Hin).
Qed.

(** ** More on the formatted size *)


(** ** The further theorems at work *)

Lemma send_not_guarded_by_loading_witness :
  canWrite (comp one_in_flight) = true
  /\ selectedFile (comp one_in_flight) = Some photo
  /\ storedWriteOperation (comp one_in_flight) = Some upload
  /\ loading (comp one_in_flight) = true
  /\ pending_sends one_in_flight = 1%nat
  /\ ∃ w', step one_in_flight (ClickSend 21) = Some w'
           /\ calls w'
              = [ReadAsDataURL photo; CallWrite upload photo;
                 CallWrite upload photo].
Proof.
  repeat (split; [reflexivity|]).
  destruct (send_not_guarded_by_loading one_in_flight photo upload 21 0
              eq_refl eq_refl eq_refl eq_refl eq_refl)
    as (w' & Hs & Hc & _).
  exists w'. split; [exact Hs|exact Hc].
Defined.

Lemma spinner_means_send_in_flight_witness :
  ∃ w', run (boot false true false) send_started = Some w'
        /\ loading (comp w') = true
        /\ (0 < pending_sends w')%nat.
Proof.
  destruct (run (boot false true false) send_started) as [w'|] eqn:E;
    [|vm_compute in E; discriminate].
  assert (Hl : loading (comp w') = true)
    by (vm_compute in E; injection E as <-; reflexivity).
  exists w'. split; [reflexivity|]. split; [exact Hl|].
  exact (spinner_means_send_in_flight false true false send_started w' E Hl).
Defined.

Lemma read_only_card_is_inert_witness :
  ∃ w', run (boot true false true) read_only_session = Some w'
        /\ calls w' = []
        /\ render_content (comp w') = Placeholder "Image Placeholder".
Proof.
  destruct (run (boot true false true) read_only_session) as [w'|] eqn:E;
    [|vm_compute in E; discriminate].
  exists w'. split; [reflexivity|].
  destruct (read_only_card_is_inert true true read_only_session w' E)
    as (Hc & _ & _ & _ & Hr).
  split; [exact Hc|exact Hr].
Defined.

Lemma calls_only_what_was_given_witness :
  ∃ w', run (boot false true false) send_twice = Some w'
        /\ ∀ fn f, CallWrite fn f ∈ calls w' ->
             fn ∈ supplied_ops send_twice /\ f ∈ picked_files send_twice.
Proof.
  destruct (run (boot false true false) send_twice) as [w'|] eqn:E;
    [|vm_compute in E; discriminate].
  exists w'. split; [reflexivity|].
  exact (proj1 (calls_only_what_was_given false true false send_twice w' E)).
Defined.





Example image_loaded_runs :
  (λ w, (metadata_well_typed (comp w),
         metadata_get (metadata (comp w)) "width",
         metadata_get (metadata (comp w)) "size",
         render_lastUpdate (comp w), loading (comp w)))
    <$> run (boot false true false) image_loaded
  = Some (true, Some (VNum 640), Some (VNum 2048), LocaleTime 16, false).
Proof. vm_compute. reflexivity. Qed.

Example send_twice_runs :
  (λ w, (calls w, pending_sends w, loading (comp w), statusText (comp w)))
    <$> run (boot false true false) send_twice
  = Some ([ReadAsDataURL photo; CallWrite upload photo;
           CallWrite upload photo], 1%nat, false, "Failed to send").
Proof. vm_compute. reflexivity. Qed.
